(** * Nonlocal control frames of mypyc's IR builder

    A shallow embedding of [mypyc/irbuild/nonlocalcontrol.py]: the frames
    that decide what [break], [continue] and [return] lower to, and the
    calls they make on the IR builder. *)

From Stdlib Require Import ZArith List.
From stdpp Require Import base option list gmap strings.

(** ** IR values and ops *)

(** Python objects that matter by identity (basic blocks, registers, frames
    with a mutable attribute) are named by their allocation index. *)
Definition BasicBlock := N.
Definition Register := N.

Inductive RType := RType_named (name : string).

(** Modelled from the spec: the assignment targets of [mypyc/ir/ops.py] are
    not in this module; the spec only calls them storage locations. *)
Inductive AssignmentTarget := AssignmentTarget_at (location : N).

(** [Branch.BOOL_EXPR] and [Branch.IS_ERROR]. *)
Inductive BranchOp := BOOL_EXPR | IS_ERROR.

(** Modelled from the spec: the value and op classes of [mypyc/ir/ops.py]
    (every op is a value).  The constructors are the classes this module
    builds, plus [Register], [DecRef] (the reference release of the
    refcount pass, which this module never builds), [Load] (what reading a
    storage location yields) and [External] for any other value handed in
    by the statement lowering.  [Branch left true_label false_label op]
    with [op = IS_ERROR] goes to [true_label] when [left] is the error
    sentinel and to [false_label] otherwise. *)
Inductive Value :=
| Reg (r : Register)
| External (id : N)
| Load (target : AssignmentTarget)
| LoadInt (n : Z)
| Return (reg : Value)
| Goto (label : BasicBlock)
| Assign (dest : Register) (src : Value)
| Unreachable
| Branch (left : Value) (true_label false_label : BasicBlock) (op : BranchOp)
| DecRef (src : Value).

Arguments Reg r%_N.
Arguments External id%_N.
Arguments LoadInt n%_Z.
Arguments Goto label%_N.
Arguments Assign dest%_N src.
Arguments Branch left (true_label false_label)%_N op.
Arguments AssignmentTarget_at location%_N.

(** Modelled from the spec: [NO_TRACEBACK_LINE_NO] of [mypyc/ir/ops.py], the
    line number that asks for no traceback entry. *)
Definition NO_TRACEBACK_LINE_NO : Z := (-10000)%Z.

(** The two primitives of [mypyc.primitives.exc_ops] this module names. *)
Inductive OpDescription := set_stop_iteration_value | restore_exc_info_op.

#[global] Instance RType_eq_dec : EqDecision RType.
Proof. solve_decision. Defined.
#[global] Instance AssignmentTarget_eq_dec : EqDecision AssignmentTarget.
Proof. solve_decision. Defined.
#[global] Instance BranchOp_eq_dec : EqDecision BranchOp.
Proof. solve_decision. Defined.
#[global] Instance Value_eq_dec : EqDecision Value.
Proof. solve_decision. Defined.
#[global] Instance OpDescription_eq_dec : EqDecision OpDescription.
Proof. solve_decision. Defined.

(** The block a branch op continues in, given the outcome of its test. *)
Definition branch_dest (op : Value) (test_holds : bool) : option BasicBlock :=
  match op with
  | Branch _ true_label false_label _ =>
      Some (if test_holds then true_label else false_label)
  | _ => None
  end.

(** ** The builder, as this module sees it *)

(** One record per call made on the builder, with its arguments (and, for
    [alloc_temp], the register handed back). *)
Inductive Call :=
| Call_add (op : Value)
| Call_assign (target : AssignmentTarget) (rvalue : Value) (line : Z)
| Call_push_error_handler (handler : option BasicBlock)
| Call_pop_error_handler
| Call_goto_and_activate (block : BasicBlock)
| Call_activate_block (block : BasicBlock)
| Call_primitive_op (desc : OpDescription) (args : list Value) (line : Z)
| Call_read (item : Value + AssignmentTarget)
| Call_alloc_temp (type : RType) (result : Register)
| Call_error (msg : string) (line : Z).

Arguments Call_assign target rvalue line%_Z.
Arguments Call_goto_and_activate block%_N.
Arguments Call_activate_block block%_N.
Arguments Call_primitive_op desc args line%_Z.
Arguments Call_alloc_temp type result%_N.
Arguments Call_error msg%_string line%_Z.

#[global] Instance Call_eq_dec : EqDecision Call.
Proof. solve_decision. Defined.

(** Modelled from the spec: the IR builder ([mypyc/irbuild/builder.py]) is
    not in this module; section 6 of the spec gives its contract.  The
    builder is a recorder: every call is appended to [calls]; the
    error-handler stack is pushed and popped (top first, no handler when
    nothing was pushed); a block that is activated gets the handler on top
    of the stack at that moment; [alloc_temp] hands out registers by
    index.  [ret_types] and [next_label_target] (for
    [fn_info.generator_class.next_label_target]) are attributes this module
    reads.  Beside the builder, the state holds what Python's heap holds
    for this module: the number of basic blocks and frame objects created,
    and, in [ret_regs], the mutable [ret_reg] attribute of every try/finally
    frame (a frame without an entry has [ret_reg = None]). *)
Record World := mkWorld {
  calls : list Call;
  error_handlers : list (option BasicBlock);
  block_handler : gmap N (option BasicBlock);
  ret_types : list RType;
  next_label_target : AssignmentTarget;
  temps : N;
  next_block : N;
  next_frame : N;
  ret_regs : gmap N Register
}.

(** Python exceptions this module can raise. *)
Inductive Exn := AssertionError (msg : string) | IndexError (msg : string).

Inductive Result (A : Type) := Ok (a : A) | Raise (e : Exn).
Arguments Ok {A} a.
Arguments Raise {A} e.

(** A statement: runs in a world, ends normally or by an exception; what it
    did to the world stays either way. *)
Definition M (A : Type) : Type := World -> Result A * World.

#[global] Instance M_ret : MRet M := fun A a w => (Ok a, w).
#[global] Instance M_bind : MBind M := fun A B k m w =>
  match m w with
  | (Ok a, w') => k a w'
  | (Raise e, w') => (Raise e, w')
  end.

Definition raise {A} (e : Exn) : M A := fun w => (Raise e, w).

(** [assert False, msg] *)
Definition assert_False (msg : string) : M unit := raise (AssertionError msg).

Definition record (c : Call) : M unit := fun w =>
  (Ok tt, mkWorld (calls w ++ [c]) (error_handlers w) (block_handler w)
            (ret_types w) (next_label_target w) (temps w) (next_block w)
            (next_frame w) (ret_regs w)).

Definition current_handler (w : World) : option BasicBlock :=
  match error_handlers w with
  | h :: _ => h
  | [] => None
  end.

Definition attach_handler (block : BasicBlock) : M unit := fun w =>
  (Ok tt, mkWorld (calls w) (error_handlers w)
            (<[block := current_handler w]> (block_handler w))
            (ret_types w) (next_label_target w) (temps w) (next_block w)
            (next_frame w) (ret_regs w)).

Definition set_error_handlers (hs : list (option BasicBlock)) : M unit := fun w =>
  (Ok tt, mkWorld (calls w) hs (block_handler w)
            (ret_types w) (next_label_target w) (temps w) (next_block w)
            (next_frame w) (ret_regs w)).

Definition get {A} (f : World -> A) : M A := fun w => (Ok (f w), w).

(** [builder.add(op)]: emits [op], which is also the value it returns. *)
Definition add (op : Value) : M Value :=
  record (Call_add op);; mret op.

Definition assign (target : AssignmentTarget) (rvalue : Value) (line : Z) : M unit :=
  record (Call_assign target rvalue line).

Definition push_error_handler (handler : option BasicBlock) : M unit :=
  record (Call_push_error_handler handler);;
  hs ← get error_handlers;
  set_error_handlers (handler :: hs).

Definition pop_error_handler : M unit :=
  record Call_pop_error_handler;;
  hs ← get error_handlers;
  set_error_handlers (tail hs).

Definition activate_block (block : BasicBlock) : M unit :=
  record (Call_activate_block block);;
  attach_handler block.

Definition goto_and_activate (block : BasicBlock) : M unit :=
  record (Call_goto_and_activate block);;
  attach_handler block.

(** The value the builder produces is dropped at every call site here. *)
Definition primitive_op (desc : OpDescription) (args : list Value) (line : Z) : M unit :=
  record (Call_primitive_op desc args line).

(** What an item reads as: a value as itself, a storage location as its
    current contents. *)
Definition value_of (item : Value + AssignmentTarget) : Value :=
  match item with
  | inl v => v
  | inr t => Load t
  end.

(** [builder.read(item)] *)
Definition read (item : Value + AssignmentTarget) : M Value :=
  record (Call_read item);;
  mret (value_of item).

Definition alloc_temp (type : RType) : M Register := fun w =>
  (Ok (temps w),
   mkWorld (calls w ++ [Call_alloc_temp type (temps w)]) (error_handlers w)
     (block_handler w) (ret_types w) (next_label_target w) (N.succ (temps w))
     (next_block w) (next_frame w) (ret_regs w)).

(** [builder.error(msg, line)]: reports and returns. *)
Definition error (msg : string) (line : Z) : M unit :=
  record (Call_error msg line).

(** [BasicBlock()]: a new block object. *)
Definition BasicBlock_new : M BasicBlock := fun w =>
  (Ok (next_block w),
   mkWorld (calls w) (error_handlers w) (block_handler w) (ret_types w)
     (next_label_target w) (temps w) (N.succ (next_block w)) (next_frame w)
     (ret_regs w)).

(** [builder.ret_types[-1]] *)
Definition ret_types_last : M RType :=
  ts ← get ret_types;
  match last ts with
  | Some t => mret t
  | None => raise (IndexError "list index out of range")
  end.

(** [self.ret_reg] *)
Definition get_ret_reg (self : N) : M (option Register) :=
  get (fun w => ret_regs w !! self).

(** [self.ret_reg = r] *)
Definition set_ret_reg (self : N) (r : Register) : M unit := fun w =>
  (Ok tt, mkWorld (calls w) (error_handlers w) (block_handler w) (ret_types w)
            (next_label_target w) (temps w) (next_block w) (next_frame w)
            (<[self := r]> (ret_regs w))).

(** ** The frames *)

(** The two subclasses of [CleanupNonlocalControl], by their own fields. *)
Inductive Cleanup :=
| ExceptCleanup (saved : Value + AssignmentTarget)
| FinallyCleanup (ret_reg : option Value) (saved : Value).

(** The classes of the module.  A try/finally frame is named by its object
    ([self]), under which the world keeps its [ret_reg]; all other fields
    are set once in [__init__] and never assigned again. *)
Inductive NonlocalControl :=
| BaseNonlocalControl
| LoopNonlocalControl (outer : NonlocalControl) (continue_block break_block : BasicBlock)
| GeneratorNonlocalControl
| CleanupNonlocalControl (outer : NonlocalControl) (kind : Cleanup)
| TryFinallyNonlocalControl (self : N) (target : BasicBlock).

Arguments LoopNonlocalControl outer (continue_block break_block)%_N.
Arguments TryFinallyNonlocalControl (self target)%_N.

Definition ExceptNonlocalControl (outer : NonlocalControl)
    (saved : Value + AssignmentTarget) : NonlocalControl :=
  CleanupNonlocalControl outer (ExceptCleanup saved).

Definition FinallyNonlocalControl (outer : NonlocalControl)
    (ret_reg : option Value) (saved : Value) : NonlocalControl :=
  CleanupNonlocalControl outer (FinallyCleanup ret_reg saved).

(** [TryFinallyNonlocalControl.__init__]: a new frame object, with
    [ret_reg = None]. *)
Definition TryFinallyNonlocalControl_init (target : BasicBlock) : M NonlocalControl :=
  fun w =>
  (Ok (TryFinallyNonlocalControl (next_frame w) target),
   mkWorld (calls w) (error_handlers w) (block_handler w) (ret_types w)
     (next_label_target w) (temps w) (next_block w) (N.succ (next_frame w))
     (delete (next_frame w) (ret_regs w))).

(** *** BaseNonlocalControl *)

Definition BaseNonlocalControl_gen_break (line : Z) : M unit :=
  assert_False "break outside of loop".

Definition BaseNonlocalControl_gen_continue (line : Z) : M unit :=
  assert_False "continue outside of loop".

Definition BaseNonlocalControl_gen_return (value : Value) (line : Z) : M unit :=
  add (Return value);; mret tt.

(** *** GeneratorNonlocalControl (gen_break and gen_continue are Base's) *)

Definition GeneratorNonlocalControl_gen_return (value : Value) (line : Z) : M unit :=
  target ← get next_label_target;
  minus_one ← add (LoadInt (-1));
  assign target minus_one line;;
  push_error_handler None;;
  block ← BasicBlock_new;
  goto_and_activate block;;
  primitive_op set_stop_iteration_value [value] NO_TRACEBACK_LINE_NO;;
  add Unreachable;;
  pop_error_handler.

(** *** TryFinallyNonlocalControl *)

Definition TryFinallyNonlocalControl_gen_break (line : Z) : M unit :=
  error "break inside try/finally block is unimplemented" line.

Definition TryFinallyNonlocalControl_gen_continue (line : Z) : M unit :=
  error "continue inside try/finally block is unimplemented" line.

Definition TryFinallyNonlocalControl_gen_return (self : N) (target : BasicBlock)
    (value : Value) (line : Z) : M unit :=
  old ← get_ret_reg self;
  r ← match old with
      | None =>
          type ← ret_types_last;
          r ← alloc_temp type;
          set_ret_reg self r;;
          mret r
      | Some r => mret r
      end;
  add (Assign r value);;
  add (Goto target);;
  mret tt.

(** *** ExceptNonlocalControl and FinallyNonlocalControl: gen_cleanup *)

Definition ExceptNonlocalControl_gen_cleanup (saved : Value + AssignmentTarget)
    (line : Z) : M unit :=
  v ← read saved;
  primitive_op restore_exc_info_op [v] line.

Definition FinallyNonlocalControl_gen_cleanup (ret_reg : option Value)
    (saved : Value) (line : Z) : M unit :=
  match ret_reg with
  | Some r =>
      target ← BasicBlock_new;
      add (Branch r target target IS_ERROR);;
      activate_block target
  | None => mret tt
  end;;
  target ← BasicBlock_new;
  cleanup ← BasicBlock_new;
  add (Branch saved target cleanup IS_ERROR);;
  activate_block cleanup;;
  primitive_op restore_exc_info_op [saved] line;;
  goto_and_activate target.

(** The abstract [gen_cleanup], resolved by the subclass. *)
Definition gen_cleanup (kind : Cleanup) (line : Z) : M unit :=
  match kind with
  | ExceptCleanup saved => ExceptNonlocalControl_gen_cleanup saved line
  | FinallyCleanup ret_reg saved => FinallyNonlocalControl_gen_cleanup ret_reg saved line
  end.

(** *** The three operations, by method resolution on the frame's class *)

Fixpoint gen_break (self : NonlocalControl) (line : Z) : M unit :=
  match self with
  | BaseNonlocalControl => BaseNonlocalControl_gen_break line
  | LoopNonlocalControl _ _ break_block => add (Goto break_block);; mret tt
  | GeneratorNonlocalControl => BaseNonlocalControl_gen_break line
  | CleanupNonlocalControl outer kind =>
      gen_cleanup kind line;;
      gen_break outer line
  | TryFinallyNonlocalControl _ _ => TryFinallyNonlocalControl_gen_break line
  end.

Fixpoint gen_continue (self : NonlocalControl) (line : Z) : M unit :=
  match self with
  | BaseNonlocalControl => BaseNonlocalControl_gen_continue line
  | LoopNonlocalControl _ continue_block _ => add (Goto continue_block);; mret tt
  | GeneratorNonlocalControl => BaseNonlocalControl_gen_continue line
  | CleanupNonlocalControl outer kind =>
      gen_cleanup kind line;;
      gen_continue outer line
  | TryFinallyNonlocalControl _ _ => TryFinallyNonlocalControl_gen_continue line
  end.

Fixpoint gen_return (self : NonlocalControl) (value : Value) (line : Z) : M unit :=
  match self with
  | BaseNonlocalControl => BaseNonlocalControl_gen_return value line
  | LoopNonlocalControl outer _ _ => gen_return outer value line
  | GeneratorNonlocalControl => GeneratorNonlocalControl_gen_return value line
  | CleanupNonlocalControl outer kind =>
      gen_cleanup kind line;;
      gen_return outer value line
  | TryFinallyNonlocalControl self target =>
      TryFinallyNonlocalControl_gen_return self target value line
  end.

(** ** Observing a statement *)

(** The calls a statement makes on the builder, in order. *)
Definition emitted {A} (m : M A) (w : World) : list Call :=
  drop (length (calls w)) (calls (m w).2).

Definition outcome {A} (m : M A) (w : World) : Result A := (m w).1.

(** A nonlocal jump, and the operation a frame answers it with. *)
Inductive Jump := Break | Continue | ReturnValue (value : Value).

Definition gen (j : Jump) (self : NonlocalControl) (line : Z) : M unit :=
  match j with
  | Break => gen_break self line
  | Continue => gen_continue self line
  | ReturnValue value => gen_return self value line
  end.

(** Cleanup frames stacked over [inner]; the head of [kinds] is the frame on
    top of the stack, the innermost scope. *)
Definition wrap (kinds : list Cleanup) (inner : NonlocalControl) : NonlocalControl :=
  foldr (fun kind outer => CleanupNonlocalControl outer kind) inner kinds.

(** The cleanups of [kinds], run one after the other from the head. *)
Fixpoint cleanups (kinds : list Cleanup) (line : Z) : M unit :=
  match kinds with
  | [] => mret tt
  | kind :: kinds => gen_cleanup kind line;; cleanups kinds line
  end.

(** Several jumps lowered one after the other on the same frame. *)
Fixpoint gen_all (js : list (Jump * Z)) (self : NonlocalControl) : M unit :=
  match js with
  | [] => mret tt
  | (j, line) :: js => gen j self line;; gen_all js self
  end.

(** The argument lists of the restore-exception-state calls, in order. *)
Fixpoint restored (cs : list Call) : list (list Value) :=
  match cs with
  | [] => []
  | Call_primitive_op restore_exc_info_op args _ :: cs => args :: restored cs
  | _ :: cs => restored cs
  end.

(** What a cleanup frame restores: the value its [saved] reads as. *)
Definition restore_args (kind : Cleanup) : list Value :=
  match kind with
  | ExceptCleanup saved => [value_of saved]
  | FinallyCleanup _ saved => [saved]
  end.

Definition is_branch (c : Call) : bool :=
  match c with
  | Call_add (Branch _ _ _ _) => true
  | _ => false
  end.

Definition is_release (c : Call) : bool :=
  match c with
  | Call_add (DecRef _) => true
  | _ => false
  end.

Definition is_alloc_temp (c : Call) : bool :=
  match c with
  | Call_alloc_temp _ _ => true
  | _ => false
  end.

Definition is_read (c : Call) : bool :=
  match c with
  | Call_read _ => true
  | _ => false
  end.

Definition is_return (c : Call) : bool :=
  match c with
  | Call_add (Return _) => true
  | _ => false
  end.

Definition count (p : Call -> bool) (cs : list Call) : nat :=
  length (List.filter p cs).

(** [m] returns normally after reporting an error at [line] through the
    builder. *)
Definition reports_error (m : M unit) (line : Z) (w : World) : Prop :=
  outcome m w = Ok tt /\ exists msg, In (Call_error msg line) (emitted m w).

(** The guard pattern of the spec's finally cleanup: a branch on the error
    test of [x] whose error arm skips to a continuation block and whose
    other arm enters a block of its own, where [action] is emitted before
    control goes on to the continuation. *)
Definition guarded (x : Value) (action : Call) (cs : list Call) : Prop :=
  exists (skip body : BasicBlock) (before after : list Call),
    skip <> body
    /\ cs = before
            ++ [Call_add (Branch x skip body IS_ERROR); Call_activate_block body;
                action; Call_goto_and_activate skip]
            ++ after.

(** The op a jump ends in when it reaches a loop whose outer frame is Base. *)
Definition loop_exit (continue_block break_block : BasicBlock) (j : Jump) : Value :=
  match j with
  | Break => Goto break_block
  | Continue => Goto continue_block
  | ReturnValue value => Return value
  end.

(** [return] statements as jumps. *)
Definition returns_of (vs : list (Value * Z)) : list (Jump * Z) :=
  map (fun vl => (ReturnValue vl.1, vl.2)) vs.

(** [m] only appends to the builder's call log. *)
Definition appends {A} (m : M A) : Prop :=
  forall w, exists d, calls (m w).2 = calls w ++ d.

(** The frame that answers jump [j] lowered at [self]: cleanup frames pass
    every jump on to their outer frame, loop frames pass a return on. *)
Fixpoint resolver (j : Jump) (self : NonlocalControl) : NonlocalControl :=
  match self with
  | CleanupNonlocalControl outer _ => resolver j outer
  | LoopNonlocalControl outer _ _ =>
      match j with
      | ReturnValue _ => resolver j outer
      | _ => self
      end
  | _ => self
  end.

(** The cleanup frames jump [j] passes on its way from [self] to the frame
    that answers it, in the order it passes them. *)
Fixpoint cleanups_before (j : Jump) (self : NonlocalControl) : list Cleanup :=
  match self with
  | CleanupNonlocalControl outer kind => kind :: cleanups_before j outer
  | LoopNonlocalControl outer _ _ =>
      match j with
      | ReturnValue _ => cleanups_before j outer
      | _ => []
      end
  | _ => []
  end.

(** [self] answers [j] itself instead of passing it on. *)
Definition resolves (j : Jump) (self : NonlocalControl) : bool :=
  match self, j with
  | CleanupNonlocalControl _ _, _ => false
  | LoopNonlocalControl _ _ _, ReturnValue _ => false
  | _, _ => true
  end.

(** The blocks activated by a run of calls, in order. *)
Fixpoint activated (cs : list Call) : list BasicBlock :=
  match cs with
  | [] => []
  | Call_activate_block b :: cs => b :: activated cs
  | Call_goto_and_activate b :: cs => b :: activated cs
  | _ :: cs => activated cs
  end.

Definition is_error_report (c : Call) : bool :=
  match c with
  | Call_error _ _ => true
  | _ => false
  end.

(** What the frame answering a break adds after the cleanups. *)
Definition break_answer (self : NonlocalControl) (line : Z) : list Call :=
  match self with
  | LoopNonlocalControl _ _ break_block => [Call_add (Goto break_block)]
  | TryFinallyNonlocalControl _ _ =>
      [Call_error "break inside try/finally block is unimplemented" line]
  | _ => []
  end.

Definition continue_answer (self : NonlocalControl) (line : Z) : list Call :=
  match self with
  | LoopNonlocalControl _ continue_block _ => [Call_add (Goto continue_block)]
  | TryFinallyNonlocalControl _ _ =>
      [Call_error "continue inside try/finally block is unimplemented" line]
  | _ => []
  end.

(** A world whose builder has no return type at hand. *)
Definition world_without_ret_type : World :=
  mkWorld [] [Some 5%N] ∅ [] (AssignmentTarget_at 0) 0 0 0 ∅.

(** A world in which the try/finally frame object 0 holds register 3. *)
Definition world_with_slot : World :=
  mkWorld [] [] ∅ [] (AssignmentTarget_at 0) 4 0 1 {[0%N := 3%N]}.

(** The blocks activated by [d] are new ones, made between [w] and [w'],
    and none is activated twice. *)
Definition activates_new_blocks (w w' : World) (d : list Call) : Prop :=
  (next_block w <= next_block w')%N
  /\ NoDup (activated d)
  /\ Forall (fun b => (next_block w <= b < next_block w')%N) (activated d).

Definition world0 : World :=
  mkWorld [] [] ∅ [RType_named "object"] (AssignmentTarget_at 0) 0 0 0 ∅.

(** ** Running the model on small inputs *)

Example base_return_runs :
  emitted (gen_return BaseNonlocalControl (External 7) 3%Z) world0
  = [Call_add (Return (External 7))].
Proof. reflexivity. Qed.

Example finally_cleanup_runs :
  emitted (gen_cleanup (FinallyCleanup (Some (Reg 0)) (External 1)) 3%Z) world0
  = [Call_add (Branch (Reg 0) 0 0 IS_ERROR); Call_activate_block 0;
     Call_add (Branch (External 1) 1 2 IS_ERROR); Call_activate_block 2;
     Call_primitive_op restore_exc_info_op [External 1] 3;
     Call_goto_and_activate 1].
Proof. vm_compute. reflexivity. Qed.

Example loop_in_two_cleanups_breaks :
  emitted (gen_break (wrap [ExceptCleanup (inl (External 1)); ExceptCleanup (inl (External 2))]
                        (LoopNonlocalControl BaseNonlocalControl 10 11)) 5%Z) world0
  = [Call_read (inl (External 1));
     Call_primitive_op restore_exc_info_op [External 1] 5;
     Call_read (inl (External 2));
     Call_primitive_op restore_exc_info_op [External 2] 5;
     Call_add (Goto 11)].
Proof. vm_compute. reflexivity. Qed.

Example try_finally_two_returns :
  emitted (gen_all [(ReturnValue (External 1), 4%Z); (ReturnValue (External 2), 6%Z)]
             (TryFinallyNonlocalControl 0 9)) world0
  = [Call_alloc_temp (RType_named "object") 0;
     Call_add (Assign 0 (External 1)); Call_add (Goto 9);
     Call_add (Assign 0 (External 2)); Call_add (Goto 9)].
Proof. vm_compute. reflexivity. Qed.

(** A return lowered inside a loop inside the try body reaches the same
    frame object, and so the same slot. *)
Example return_through_loop_shares_slot :
  emitted (gen_return (TryFinallyNonlocalControl 0 9) (External 1) 4%Z;;
           gen_return (LoopNonlocalControl (TryFinallyNonlocalControl 0 9) 1 2)
             (External 2) 6%Z) world0
  = [Call_alloc_temp (RType_named "object") 0;
     Call_add (Assign 0 (External 1)); Call_add (Goto 9);
     Call_add (Assign 0 (External 2)); Call_add (Goto 9)].
Proof. vm_compute. reflexivity. Qed.

Example generator_return_in_except_runs :
  emitted (gen_return (ExceptNonlocalControl GeneratorNonlocalControl (inl (External 1)))
             (External 2) 8%Z) world0
  = [Call_read (inl (External 1));
     Call_primitive_op restore_exc_info_op [External 1] 8;
     Call_add (LoadInt (-1));
     Call_assign (AssignmentTarget_at 0) (LoadInt (-1)) 8;
     Call_push_error_handler None;
     Call_goto_and_activate 0;
     Call_primitive_op set_stop_iteration_value [External 2] NO_TRACEBACK_LINE_NO;
     Call_add Unreachable;
     Call_pop_error_handler].
Proof. vm_compute. reflexivity. Qed.

(** ** The log only grows *)

(** Runs a statement of the model on the world at hand, step by step. *)
Ltac run :=
  cbv beta iota zeta delta
    [gen gen_break gen_continue gen_return gen_cleanup
     BaseNonlocalControl_gen_break BaseNonlocalControl_gen_continue
     BaseNonlocalControl_gen_return GeneratorNonlocalControl_gen_return
     TryFinallyNonlocalControl_gen_break TryFinallyNonlocalControl_gen_continue
     TryFinallyNonlocalControl_gen_return ExceptNonlocalControl
     FinallyNonlocalControl ExceptNonlocalControl_gen_cleanup
     FinallyNonlocalControl_gen_cleanup TryFinallyNonlocalControl_init
     add assign push_error_handler pop_error_handler activate_block
     goto_and_activate primitive_op read alloc_temp error BasicBlock_new
     ret_types_last get_ret_reg set_ret_reg record attach_handler
     set_error_handlers get raise assert_False current_handler value_of
     mbind mret M_bind M_ret outcome
     calls error_handlers block_handler ret_types next_label_target temps
     next_block next_frame ret_regs fst snd tail].

(** The same, on a world variable: its fields are named first, so that the
    projections compute. *)
Ltac run_on w :=
  destruct w as [cs ehs bhs rts nlt tmps nblk nfrm rregs]; run.

Lemma emitted_of_append {A} (m : M A) w d :
  calls (m w).2 = calls w ++ d -> emitted m w = d.
Proof. intros H. unfold emitted. rewrite H. apply drop_app_length. Qed.

Lemma calls_emitted {A} (m : M A) w :
  appends m -> calls (m w).2 = calls w ++ emitted m w.
Proof.
  intros Hm. destruct (Hm w) as [d Hd].
  by rewrite (emitted_of_append m w d Hd).
Qed.

Lemma appends_ret {A} (a : A) : appends (mret a : M A).
Proof. intros w. exists []. by rewrite app_nil_r. Qed.

Lemma appends_raise {A} e : appends (raise e : M A).
Proof. intros w. exists []. by rewrite app_nil_r. Qed.

Lemma appends_bind {A B} (m : M A) (k : A -> M B) :
  appends m -> (forall a, appends (k a)) -> appends (m ≫= k).
Proof.
  intros Hm Hk w. destruct (Hm w) as [d Hd].
  unfold mbind, M_bind. destruct (m w) as [[a|e] w1] eqn:E; simpl in *.
  - destruct (Hk a w1) as [d' Hd']. exists (d ++ d').
    by rewrite Hd', Hd, app_assoc.
  - by exists d.
Qed.

Lemma appends_record c : appends (record c).
Proof. intros w. by exists [c]. Qed.

Lemma appends_get {A} (f : World -> A) : appends (get f).
Proof. intros w. exists []. by rewrite app_nil_r. Qed.

Lemma appends_attach_handler b : appends (attach_handler b).
Proof. intros w. exists []. by rewrite app_nil_r. Qed.

Lemma appends_set_error_handlers hs : appends (set_error_handlers hs).
Proof. intros w. exists []. by rewrite app_nil_r. Qed.

Lemma appends_set_ret_reg self r : appends (set_ret_reg self r).
Proof. intros w. exists []. by rewrite app_nil_r. Qed.

Lemma appends_BasicBlock_new : appends BasicBlock_new.
Proof. intros w. exists []. by rewrite app_nil_r. Qed.

Lemma appends_alloc_temp t : appends (alloc_temp t).
Proof. intros w. by exists [Call_alloc_temp t (temps w)]. Qed.

Create HintDb appends discriminated.
#[local] Hint Resolve appends_ret appends_raise appends_bind appends_record
  appends_get appends_attach_handler appends_set_error_handlers
  appends_set_ret_reg appends_BasicBlock_new appends_alloc_temp : appends.

Ltac solve_appends :=
  repeat first
    [ progress intros
    | apply appends_bind
    | solve [auto with appends]
    | match goal with
      | |- appends (match ?x with _ => _ end) => destruct x
      end ].

Lemma appends_gen_cleanup kind line : appends (gen_cleanup kind line).
Proof.
  destruct kind as [saved | slot saved];
    unfold gen_cleanup, ExceptNonlocalControl_gen_cleanup, FinallyNonlocalControl_gen_cleanup,
      read, add, activate_block, goto_and_activate, primitive_op;
    solve_appends.
Qed.

Lemma appends_cleanups kinds line : appends (cleanups kinds line).
Proof.
  induction kinds as [|k ks IH]; cbn [cleanups]; [apply appends_ret|].
  apply appends_bind; [apply appends_gen_cleanup | auto].
Qed.

Lemma appends_add op : appends (add op).
Proof. unfold add. solve_appends. Qed.

Lemma appends_generator_return value line :
  appends (GeneratorNonlocalControl_gen_return value line).
Proof.
  unfold GeneratorNonlocalControl_gen_return, add, assign, push_error_handler,
    pop_error_handler, goto_and_activate, primitive_op.
  solve_appends.
Qed.

Lemma appends_try_finally_return self target value line :
  appends (TryFinallyNonlocalControl_gen_return self target value line).
Proof.
  unfold TryFinallyNonlocalControl_gen_return, add, ret_types_last, get_ret_reg.
  solve_appends.
Qed.

Lemma appends_gen_break self line : appends (gen_break self line).
Proof.
  induction self as [| outer IH c b | | outer IH kind | self target]; simpl.
  - apply appends_raise.
  - apply appends_bind; [apply appends_add | intros; apply appends_ret].
  - apply appends_raise.
  - apply appends_bind; [apply appends_gen_cleanup | intros; exact IH].
  - apply appends_record.
Qed.

Lemma appends_gen_continue self line : appends (gen_continue self line).
Proof.
  induction self as [| outer IH c b | | outer IH kind | self target]; simpl.
  - apply appends_raise.
  - apply appends_bind; [apply appends_add | intros; apply appends_ret].
  - apply appends_raise.
  - apply appends_bind; [apply appends_gen_cleanup | intros; exact IH].
  - apply appends_record.
Qed.

Lemma appends_gen_return self value line : appends (gen_return self value line).
Proof.
  induction self as [| outer IH c b | | outer IH kind | self target]; simpl.
  - apply appends_bind; [apply appends_add | intros; apply appends_ret].
  - exact IH.
  - apply appends_generator_return.
  - apply appends_bind; [apply appends_gen_cleanup | intros; exact IH].
  - apply appends_try_finally_return.
Qed.

Lemma appends_gen j self line : appends (gen j self line).
Proof.
  destruct j; [apply appends_gen_break | apply appends_gen_continue
              | apply appends_gen_return].
Qed.

Ltac run_emitted :=
  lazymatch goal with
  | |- emitted _ ?w = _ =>
      apply emitted_of_append; run_on w; rewrite <- ?app_assoc; reflexivity
  end.

(** ** Loop frames *)

(** C7: on a Loop frame, gen_break emits exactly one unconditional jump, to
    break_block; gen_continue emits exactly one, to continue_block;
    gen_return is the outer frame's gen_return on the same value and line,
    whatever the two targets are. *)
Theorem loop_jumps_to_targets_and_passes_return :
  forall outer continue_block break_block line w,
    gen_break (LoopNonlocalControl outer continue_block break_block) line w
      = record (Call_add (Goto break_block)) w
    /\ emitted (gen_break (LoopNonlocalControl outer continue_block break_block) line) w
      = [Call_add (Goto break_block)]
    /\ gen_continue (LoopNonlocalControl outer continue_block break_block) line w
      = record (Call_add (Goto continue_block)) w
    /\ emitted (gen_continue (LoopNonlocalControl outer continue_block break_block) line) w
      = [Call_add (Goto continue_block)]
    /\ forall value,
        gen_return (LoopNonlocalControl outer continue_block break_block) value line
        = gen_return outer value line.
Proof.
  intros. repeat split; try reflexivity; run_emitted.
Qed.

(** ** Try/finally frames: break and continue *)

Lemma try_finally_break_run self target line w :
  gen_break (TryFinallyNonlocalControl self target) line w
  = record (Call_error "break inside try/finally block is unimplemented" line) w.
Proof. reflexivity. Qed.

Lemma try_finally_continue_run self target line w :
  gen_continue (TryFinallyNonlocalControl self target) line w
  = record (Call_error "continue inside try/finally block is unimplemented" line) w.
Proof. reflexivity. Qed.

(** C8: on a TryFinally frame, gen_break and gen_continue report an error
    through the builder at the given line (the texts are
    "break inside try/finally block is unimplemented" and
    "continue inside try/finally block is unimplemented"), return normally,
    make no other call (so no jump is emitted) and leave the frame's
    ret_reg as it was. *)
Theorem try_finally_break_continue_report_error :
  forall self target line w,
    reports_error (gen_break (TryFinallyNonlocalControl self target) line) line w
    /\ emitted (gen_break (TryFinallyNonlocalControl self target) line) w
       = [Call_error "break inside try/finally block is unimplemented" line]
    /\ ret_regs (gen_break (TryFinallyNonlocalControl self target) line w).2 = ret_regs w
    /\ reports_error (gen_continue (TryFinallyNonlocalControl self target) line) line w
    /\ emitted (gen_continue (TryFinallyNonlocalControl self target) line) w
       = [Call_error "continue inside try/finally block is unimplemented" line]
    /\ ret_regs (gen_continue (TryFinallyNonlocalControl self target) line w).2 = ret_regs w.
Proof.
  intros.
  assert (Hb : emitted (gen_break (TryFinallyNonlocalControl self target) line) w
               = [Call_error "break inside try/finally block is unimplemented" line])
    by run_emitted.
  assert (Hc : emitted (gen_continue (TryFinallyNonlocalControl self target) line) w
               = [Call_error "continue inside try/finally block is unimplemented" line])
    by run_emitted.
  unfold reports_error. rewrite Hb, Hc.
  repeat split; try reflexivity; eexists; left; reflexivity.
Qed.

(** ** The base frame *)

(** C2, as the code has it: on the Base frame gen_break and gen_continue
    raise AssertionError ("break outside of loop", "continue outside of
    loop") without any call on the builder, so nothing is reported and the
    world is as before; gen_return emits exactly one op, the function
    return of the value. *)
Theorem base_break_continue_assert_and_return_returns :
  forall line w,
    gen_break BaseNonlocalControl line w
      = (Raise (AssertionError "break outside of loop"), w)
    /\ gen_continue BaseNonlocalControl line w
      = (Raise (AssertionError "continue outside of loop"), w)
    /\ forall value,
        gen_return BaseNonlocalControl value line w = record (Call_add (Return value)) w
        /\ emitted (gen_return BaseNonlocalControl value line) w = [Call_add (Return value)].
Proof.
  intros. repeat split; try reflexivity; run_emitted.
Qed.

(** C2 as stated fails: at the Base frame neither gen_break nor
    gen_continue returns normally with an error reported through the
    builder. *)
Lemma base_break_continue_not_reported :
  ~ reports_error (gen_break BaseNonlocalControl 1) 1 world0
  /\ ~ reports_error (gen_continue BaseNonlocalControl 1) 1 world0.
Proof.
  split; intros [H _]; vm_compute in H; discriminate.
Qed.

(** ** The generator's base frame *)

Lemma generator_return_run value line w :
  gen_return GeneratorNonlocalControl value line w
  = (Ok tt,
     mkWorld
       (calls w
        ++ [Call_add (LoadInt (-1));
            Call_assign (next_label_target w) (LoadInt (-1)) line;
            Call_push_error_handler None;
            Call_goto_and_activate (next_block w);
            Call_primitive_op set_stop_iteration_value [value] NO_TRACEBACK_LINE_NO;
            Call_add Unreachable;
            Call_pop_error_handler])
       (error_handlers w) (<[next_block w := None]> (block_handler w))
       (ret_types w) (next_label_target w) (temps w) (N.succ (next_block w))
       (next_frame w) (ret_regs w)).
Proof.
  run_on w. by rewrite <- !app_assoc.
Qed.

(** C10: GeneratorNonlocalControl answers break and continue with Base's
    methods, so both raise the same AssertionError as at the Base frame and
    touch nothing; only gen_return is its own, and differs from Base's. *)
Theorem generator_break_continue_inherited :
  forall line w,
    gen_break GeneratorNonlocalControl line w = gen_break BaseNonlocalControl line w
    /\ gen_continue GeneratorNonlocalControl line w = gen_continue BaseNonlocalControl line w
    /\ gen_break GeneratorNonlocalControl line w
       = (Raise (AssertionError "break outside of loop"), w)
    /\ gen_continue GeneratorNonlocalControl line w
       = (Raise (AssertionError "continue outside of loop"), w)
    /\ forall value,
        gen_return GeneratorNonlocalControl value line w
        <> gen_return BaseNonlocalControl value line w.
Proof.
  intros. repeat split; try reflexivity.
  intros value H.
  apply (f_equal (fun p => length (calls p.2))) in H. revert H.
  rewrite generator_return_run. run_on w. rewrite !length_app. simpl. lia.
Qed.

(** C3: the generator's gen_return makes these calls, in this order, and
    returns normally: add LoadInt(-1); assign it to the next-label target at
    the given line; push the empty error handler; go to and activate a new
    block; call set_stop_iteration_value on the value with
    NO_TRACEBACK_LINE_NO; add Unreachable; pop the error handler.  The new
    block has no error handler, whatever handlers were active before, and
    the handler stack ends as it started. *)
Theorem generator_return_protocol :
  forall value line w,
    outcome (gen_return GeneratorNonlocalControl value line) w = Ok tt
    /\ emitted (gen_return GeneratorNonlocalControl value line) w
       = [Call_add (LoadInt (-1));
          Call_assign (next_label_target w) (LoadInt (-1)) line;
          Call_push_error_handler None;
          Call_goto_and_activate (next_block w);
          Call_primitive_op set_stop_iteration_value [value] NO_TRACEBACK_LINE_NO;
          Call_add Unreachable;
          Call_pop_error_handler]
    /\ block_handler (gen_return GeneratorNonlocalControl value line w).2 !! next_block w
       = Some None
    /\ error_handlers (gen_return GeneratorNonlocalControl value line w).2
       = error_handlers w.
Proof.
  intros. unfold outcome, emitted. rewrite generator_return_run. run_on w.
  repeat split; [apply drop_app_length | apply lookup_insert_eq].
Qed.

(** ** Sequencing *)

Lemma bind_ok {A B} (m : M A) (k : A -> M B) w a w1 :
  m w = (Ok a, w1) -> (m ≫= k) w = k a w1.
Proof. intros H. unfold mbind, M_bind. by rewrite H. Qed.

Lemma bind_assoc_at {A B C} (m : M A) (k : A -> M B) (k' : B -> M C) w :
  ((m ≫= k) ≫= k') w = (m ≫= fun a => k a ≫= k') w.
Proof.
  unfold mbind, M_bind. destruct (m w) as [[a|e] w1]; [|reflexivity].
  reflexivity.
Qed.

Lemma emitted_bind_ok {A B} (m : M A) (k : A -> M B) w a w1 :
  m w = (Ok a, w1) -> appends m -> appends (k a) ->
  emitted (m ≫= k) w = emitted m w ++ emitted (k a) w1.
Proof.
  intros Hrun Hm Hk. apply emitted_of_append.
  rewrite (bind_ok m k w a w1 Hrun), (calls_emitted (k a) w1 Hk).
  pose proof (calls_emitted m w Hm) as Hc. rewrite Hrun in Hc. simpl in Hc.
  by rewrite Hc, app_assoc.
Qed.

Lemma restored_app cs cs' : restored (cs ++ cs') = restored cs ++ restored cs'.
Proof.
  induction cs as [|c cs IH]; [reflexivity|].
  destruct c as [| | | | | |desc args line| | |]; simpl; try exact IH.
  destruct desc; simpl; [exact IH | by rewrite IH].
Qed.

Lemma count_app p cs cs' : count p (cs ++ cs') = (count p cs + count p cs')%nat.
Proof. unfold count. by rewrite List.filter_app, length_app. Qed.

(** ** Cleanup of a finally frame *)

Lemma finally_cleanup_with_slot slot saved line w :
  emitted (gen_cleanup (FinallyCleanup (Some slot) saved) line) w
  = [Call_add (Branch slot (next_block w) (next_block w) IS_ERROR);
     Call_activate_block (next_block w);
     Call_add (Branch saved (N.succ (next_block w)) (N.succ (N.succ (next_block w))) IS_ERROR);
     Call_activate_block (N.succ (N.succ (next_block w)));
     Call_primitive_op restore_exc_info_op [saved] line;
     Call_goto_and_activate (N.succ (next_block w))].
Proof. run_emitted. Qed.

Lemma finally_cleanup_without_slot saved line w :
  emitted (gen_cleanup (FinallyCleanup None saved) line) w
  = [Call_add (Branch saved (next_block w) (N.succ (next_block w)) IS_ERROR);
     Call_activate_block (N.succ (next_block w));
     Call_primitive_op restore_exc_info_op [saved] line;
     Call_goto_and_activate (next_block w)].
Proof. run_emitted. Qed.

(** C5, as the code has it: with a slot present, the finally cleanup first
    adds one is-error branch on the slot whose two arms are the same new
    block, and activates that block; it emits no reference release on either
    arm.  Then, slot or no slot, it guards the restore of the saved
    exception state: an is-error branch on saved whose error arm skips to a
    continuation block and whose other arm enters a block where
    restore_exc_info_op is called on saved, after which control goes to the
    continuation. *)
Theorem finally_cleanup_branches_and_guards_restore :
  forall saved line w,
    (forall slot,
        emitted (gen_cleanup (FinallyCleanup (Some slot) saved) line) w
        = [Call_add (Branch slot (next_block w) (next_block w) IS_ERROR);
           Call_activate_block (next_block w);
           Call_add (Branch saved (N.succ (next_block w))
                       (N.succ (N.succ (next_block w))) IS_ERROR);
           Call_activate_block (N.succ (N.succ (next_block w)));
           Call_primitive_op restore_exc_info_op [saved] line;
           Call_goto_and_activate (N.succ (next_block w))]
        /\ branch_dest (Branch slot (next_block w) (next_block w) IS_ERROR) true
           = branch_dest (Branch slot (next_block w) (next_block w) IS_ERROR) false
        /\ count is_release
             (emitted (gen_cleanup (FinallyCleanup (Some slot) saved) line) w) = 0%nat)
    /\ forall ret_reg,
        outcome (gen_cleanup (FinallyCleanup ret_reg saved) line) w = Ok tt
        /\ guarded saved (Call_primitive_op restore_exc_info_op [saved] line)
             (emitted (gen_cleanup (FinallyCleanup ret_reg saved) line) w).
Proof.
  intros saved line w. split.
  - intros slot. rewrite finally_cleanup_with_slot. repeat split.
  - intros [slot|]; (split; [reflexivity|]).
    + rewrite finally_cleanup_with_slot.
      exists (N.succ (next_block w)), (N.succ (N.succ (next_block w))),
        [Call_add (Branch slot (next_block w) (next_block w) IS_ERROR);
         Call_activate_block (next_block w)], [].
      split; [lia | reflexivity].
    + rewrite finally_cleanup_without_slot.
      exists (next_block w), (N.succ (next_block w)), [], [].
      split; [lia | reflexivity].
Qed.

(** C5 as stated fails: with slot r0 present, the calls of the finally
    cleanup hold no guarded release of r0. *)
Lemma finally_cleanup_emits_no_release :
  ~ guarded (Reg 0) (Call_add (DecRef (Reg 0)))
      (emitted (gen_cleanup (FinallyCleanup (Some (Reg 0)) (External 1)) 3) world0).
Proof.
  intros (skip & body & before & after & _ & H).
  assert (Hin : In (Call_add (DecRef (Reg 0)))
                  (emitted (gen_cleanup (FinallyCleanup (Some (Reg 0)) (External 1)) 3)
                     world0)).
  { rewrite H. apply in_or_app. right. simpl. auto. }
  vm_compute in Hin. intuition discriminate.
Qed.

(** C6: without a slot the finally cleanup adds a single branch, the guard
    of the exception-state restore on saved, and so no branch for a
    reference release; with a slot it adds exactly one more branch, the
    is-error test of the slot, as its very first call, and it emits no
    release, so none comes before that branch. *)
Theorem finally_cleanup_slot_branch :
  forall saved line w,
    List.filter is_branch (emitted (gen_cleanup (FinallyCleanup None saved) line) w)
    = [Call_add (Branch saved (next_block w) (N.succ (next_block w)) IS_ERROR)]
    /\ forall slot,
        List.filter is_branch
          (emitted (gen_cleanup (FinallyCleanup (Some slot) saved) line) w)
        = [Call_add (Branch slot (next_block w) (next_block w) IS_ERROR);
           Call_add (Branch saved (N.succ (next_block w))
                       (N.succ (N.succ (next_block w))) IS_ERROR)]
        /\ count is_branch
             (emitted (gen_cleanup (FinallyCleanup (Some slot) saved) line) w)
           = S (count is_branch
                  (emitted (gen_cleanup (FinallyCleanup None saved) line) w))
        /\ head (emitted (gen_cleanup (FinallyCleanup (Some slot) saved) line) w)
           = Some (Call_add (Branch slot (next_block w) (next_block w) IS_ERROR))
        /\ count is_release
             (emitted (gen_cleanup (FinallyCleanup (Some slot) saved) line) w) = 0%nat.
Proof.
  intros saved line w. rewrite finally_cleanup_without_slot. split; [reflexivity|].
  intros slot. rewrite finally_cleanup_with_slot. repeat split.
Qed.

(** ** Cleanup frames *)

Lemma gen_cleanup_ok kind line w : outcome (gen_cleanup kind line) w = Ok tt.
Proof. destruct kind as [saved | [slot|] saved]; reflexivity. Qed.

Lemma gen_cleanup_run kind line w :
  gen_cleanup kind line w = (Ok tt, (gen_cleanup kind line w).2).
Proof.
  pose proof (gen_cleanup_ok kind line w) as H. unfold outcome in H.
  by destruct (gen_cleanup kind line w) as [[[]|e] w1]; simplify_eq/=.
Qed.

Lemma gen_cleanup_restored kind line w :
  restored (emitted (gen_cleanup kind line) w) = [restore_args kind].
Proof.
  destruct kind as [[v|t] | [slot|] saved].
  - by replace (emitted _ w)
      with [Call_read (inl v); Call_primitive_op restore_exc_info_op [v] line]
      by (symmetry; run_emitted).
  - by replace (emitted _ w)
      with [Call_read (inr t); Call_primitive_op restore_exc_info_op [Load t] line]
      by (symmetry; run_emitted).
  - by rewrite finally_cleanup_with_slot.
  - by rewrite finally_cleanup_without_slot.
Qed.

Lemma cleanups_ok kinds line w : outcome (cleanups kinds line) w = Ok tt.
Proof.
  revert w. induction kinds as [|k ks IH]; intros w; [reflexivity|].
  unfold outcome in *. cbn [cleanups].
  rewrite (bind_ok _ _ w tt _ (gen_cleanup_run k line w)). apply IH.
Qed.

Lemma cleanups_run kinds line w :
  cleanups kinds line w = (Ok tt, (cleanups kinds line w).2).
Proof.
  pose proof (cleanups_ok kinds line w) as H. unfold outcome in H.
  by destruct (cleanups kinds line w) as [[[]|e] w1]; simplify_eq/=.
Qed.

Lemma cleanups_restored kinds line w :
  restored (emitted (cleanups kinds line) w) = map restore_args kinds.
Proof.
  revert w. induction kinds as [|k ks IH]; intros w.
  - by replace (emitted (cleanups [] line) w) with (@nil Call)
      by (symmetry; apply emitted_of_append; run_on w; by rewrite app_nil_r).
  - cbn [cleanups map].
    rewrite (emitted_bind_ok _ (fun _ => cleanups ks line) w tt _
               (gen_cleanup_run k line w)
               (appends_gen_cleanup k line) (appends_cleanups ks line)).
    by rewrite restored_app, gen_cleanup_restored, IH.
Qed.

Lemma gen_cleanup_frame outer kind j line :
  gen j (CleanupNonlocalControl outer kind) line
  = (gen_cleanup kind line;; gen j outer line).
Proof. by destruct j. Qed.

Lemma gen_wrap kinds inner j line w :
  gen j (wrap kinds inner) line w = (cleanups kinds line;; gen j inner line) w.
Proof.
  revert w. induction kinds as [|k ks IH]; intros w; [reflexivity|].
  cbn [wrap foldr cleanups]. fold (wrap ks inner).
  rewrite gen_cleanup_frame, bind_assoc_at.
  rewrite (bind_ok _ (fun _ => gen j (wrap ks inner) line) w tt _
             (gen_cleanup_run k line w)).
  rewrite (bind_ok _ (fun _ => cleanups ks line;; gen j inner line) w tt _
             (gen_cleanup_run k line w)).
  apply IH.
Qed.

(** C1: a cleanup frame answers break, continue and return alike: its own
    gen_cleanup, then the same operation on its outer frame.  So for cleanup
    frames stacked over any inner frame the operation is the cleanups of the
    stack, from the top frame outwards, followed by the operation on the
    inner frame: the cleanups all return normally, each frame's restore call
    shows up exactly once and in that order, and the calls made are theirs
    followed by those of the inner frame's own operation. *)
Theorem cleanup_chain_runs_cleanups_then_inner :
  forall j line,
    (forall outer kind,
        gen j (CleanupNonlocalControl outer kind) line
        = (gen_cleanup kind line;; gen j outer line))
    /\ forall kinds inner w,
        gen j (wrap kinds inner) line w = (cleanups kinds line;; gen j inner line) w
        /\ outcome (cleanups kinds line) w = Ok tt
        /\ restored (emitted (cleanups kinds line) w) = map restore_args kinds
        /\ emitted (gen j (wrap kinds inner) line) w
           = emitted (cleanups kinds line) w
             ++ emitted (gen j inner line) (cleanups kinds line w).2
        /\ outcome (gen j (wrap kinds inner) line) w
           = outcome (gen j inner line) (cleanups kinds line w).2.
Proof.
  intros j line. split; [intros; apply gen_cleanup_frame|].
  intros kinds inner w.
  split; [apply gen_wrap|]. split; [apply cleanups_ok|].
  split; [apply cleanups_restored|]. split.
  - unfold emitted at 1. rewrite gen_wrap. fold (emitted (cleanups kinds line;; gen j inner line) w).
    apply (emitted_bind_ok _ (fun _ => gen j inner line) w tt _
             (cleanups_run kinds line w)
             (appends_cleanups kinds line) (appends_gen j inner line)).
  - unfold outcome at 1. rewrite gen_wrap.
    by rewrite (bind_ok _ _ w tt _ (cleanups_run kinds line w)).
Qed.

(** ** Except frames *)

Lemma except_cleanup_calls saved line w :
  emitted (gen_cleanup (ExceptCleanup saved) line) w
  = [Call_read saved;
     Call_primitive_op restore_exc_info_op [value_of saved] line].
Proof. destruct saved; run_emitted. Qed.

Lemma gen_all_loop_except_run js continue_block break_block saved w :
  outcome (gen_all js (ExceptNonlocalControl
                         (LoopNonlocalControl BaseNonlocalControl continue_block break_block)
                         saved)) w = Ok tt
  /\ calls (gen_all js (ExceptNonlocalControl
                         (LoopNonlocalControl BaseNonlocalControl continue_block break_block)
                         saved) w).2
     = calls w
       ++ flat_map (fun jl =>
            [Call_read saved;
             Call_primitive_op restore_exc_info_op [value_of saved] jl.2;
             Call_add (loop_exit continue_block break_block jl.1)]) js.
Proof.
  revert w. induction js as [|[j line] js IH]; intros w.
  - split; [reflexivity|]. run_on w. simpl. by rewrite app_nil_r.
  - cbn [gen_all flat_map].
    set (w1 := (gen j (ExceptNonlocalControl
                         (LoopNonlocalControl BaseNonlocalControl continue_block break_block)
                         saved) line w).2).
    assert (Hrun : gen j (ExceptNonlocalControl
                            (LoopNonlocalControl BaseNonlocalControl continue_block break_block)
                            saved) line w = (Ok tt, w1))
      by (subst w1; destruct j, saved; reflexivity).
    assert (Hcalls : calls w1 = calls w ++
              [Call_read saved;
               Call_primitive_op restore_exc_info_op [value_of saved] line;
               Call_add (loop_exit continue_block break_block j)])
      by (subst w1; destruct j, saved; run_on w; by rewrite <- ?app_assoc).
    unfold outcome. rewrite (bind_ok _ _ w tt w1 Hrun).
    destruct (IH w1) as [IHo IHc]. split; [exact IHo|].
    rewrite IHc, Hcalls. by rewrite <- app_assoc.
Qed.

(** C9: the cleanup of an except frame makes exactly two calls: one read of
    saved, and one restore_exc_info_op call on the value read, at the given
    line.  The frame keeps saved as given at construction (it is a field of
    the frame value; the cleanup writes no frame attribute), and every jump
    through the frame runs this cleanup once before the outer frame's
    operation: jumps lowered one after the other through an except frame
    inside a loop each read saved once and restore once, however many and
    whichever they are. *)
Theorem except_cleanup_restores_saved_once_per_exit :
  forall saved line w,
    emitted (gen_cleanup (ExceptCleanup saved) line) w
    = [Call_read saved;
       Call_primitive_op restore_exc_info_op [value_of saved] line]
    /\ outcome (read saved) w = Ok (value_of saved)
    /\ ret_regs (gen_cleanup (ExceptCleanup saved) line w).2 = ret_regs w
    /\ (forall outer j,
          gen j (ExceptNonlocalControl outer saved) line
          = (gen_cleanup (ExceptCleanup saved) line;; gen j outer line))
    /\ forall js continue_block break_block,
        emitted (gen_all js (ExceptNonlocalControl
                   (LoopNonlocalControl BaseNonlocalControl continue_block break_block)
                   saved)) w
        = flat_map (fun jl =>
            [Call_read saved;
             Call_primitive_op restore_exc_info_op [value_of saved] jl.2;
             Call_add (loop_exit continue_block break_block jl.1)]) js
        /\ count is_read
             (emitted (gen_all js (ExceptNonlocalControl
                        (LoopNonlocalControl BaseNonlocalControl continue_block break_block)
                        saved)) w) = length js
        /\ length (restored
             (emitted (gen_all js (ExceptNonlocalControl
                        (LoopNonlocalControl BaseNonlocalControl continue_block break_block)
                        saved)) w)) = length js.
Proof.
  intros saved line w.
  split; [apply except_cleanup_calls|].
  split; [by destruct saved|].
  split; [by destruct saved|].
  split; [intros; apply gen_cleanup_frame|].
  intros js continue_block break_block.
  destruct (gen_all_loop_except_run js continue_block break_block saved w) as [_ Hc].
  rewrite (emitted_of_append _ _ _ Hc). split; [reflexivity|].
  clear Hc. induction js as [|[j l] js [IH1 IH2]]; [done|].
  cbn [flat_map]. rewrite count_app, restored_app, length_app, IH1, IH2.
  by destruct saved as [v|t], j.
Qed.

(** ** Try/finally frames: return *)

Lemma try_finally_return_present self target value line w r :
  ret_regs w !! self = Some r ->
  gen_return (TryFinallyNonlocalControl self target) value line w
  = (Ok tt,
     mkWorld (calls w ++ [Call_add (Assign r value); Call_add (Goto target)])
       (error_handlers w) (block_handler w) (ret_types w) (next_label_target w)
       (temps w) (next_block w) (next_frame w) (ret_regs w)).
Proof.
  intros H. run_on w. simpl in H. rewrite H. by rewrite <- app_assoc.
Qed.

Lemma try_finally_return_absent self target value line w type :
  ret_regs w !! self = None -> last (ret_types w) = Some type ->
  gen_return (TryFinallyNonlocalControl self target) value line w
  = (Ok tt,
     mkWorld (calls w ++ [Call_alloc_temp type (temps w);
                          Call_add (Assign (temps w) value); Call_add (Goto target)])
       (error_handlers w) (block_handler w) (ret_types w) (next_label_target w)
       (N.succ (temps w)) (next_block w) (next_frame w)
       (<[self := temps w]> (ret_regs w))).
Proof.
  intros H Ht. run_on w. simpl in H, Ht.
  rewrite H, Ht. by rewrite <- !app_assoc.
Qed.

Lemma try_finally_returns_reuse self target vs w r :
  ret_regs w !! self = Some r ->
  outcome (gen_all (returns_of vs) (TryFinallyNonlocalControl self target)) w = Ok tt
  /\ calls (gen_all (returns_of vs) (TryFinallyNonlocalControl self target) w).2
     = calls w ++ flat_map (fun vl => [Call_add (Assign r vl.1); Call_add (Goto target)]) vs
  /\ ret_regs (gen_all (returns_of vs) (TryFinallyNonlocalControl self target) w).2
     = ret_regs w.
Proof.
  revert w. induction vs as [|[v l] vs IH]; intros w H.
  - repeat split. run_on w. simpl. by rewrite app_nil_r.
  - change (returns_of ((v, l) :: vs)) with ((ReturnValue v, l) :: returns_of vs).
    cbn [gen_all flat_map fst snd gen]. unfold outcome.
    rewrite (bind_ok _ _ w tt _ (try_finally_return_present self target v l w r H)).
    edestruct IH as (IHo & IHc & IHr); [|split; [exact IHo|]; rewrite IHc, IHr].
    + exact H.
    + simpl. by rewrite <- app_assoc.
Qed.

Lemma count_assign_goto p r target (vs : list (Value * Z)) :
  (forall v, p (Call_add (Assign r v)) = false) ->
  p (Call_add (Goto target)) = false ->
  count p (flat_map (fun vl => [Call_add (Assign r vl.1); Call_add (Goto target)]) vs)
  = 0%nat.
Proof.
  intros Ha Hg. unfold count.
  induction vs as [|[v l] vs IH]; [reflexivity|].
  cbn [flat_map app List.filter fst]. by rewrite Ha, Hg.
Qed.

(** C4: gen_return on a TryFinally frame allocates the return temporary
    only when the frame has none, assigns the value to it and adds an
    unconditional jump to the frame's target; no function Return is added.
    Over any number of returns lowered on the same frame (at least one) the
    slot is the one the frame had or, for a frame without one, the single
    temporary allocated by the first return; every assignment goes to that
    slot, and the frame holds it afterwards.  (The type of the temporary is
    the last of the builder's ret_types, which must be there.) *)
Theorem try_finally_return_allocates_once :
  forall self target value line (more : list (Value * Z)) w type,
    last (ret_types w) = Some type ->
    outcome (gen_all (returns_of ((value, line) :: more))
               (TryFinallyNonlocalControl self target)) w = Ok tt
    /\ emitted (gen_all (returns_of ((value, line) :: more))
                  (TryFinallyNonlocalControl self target)) w
       = match ret_regs w !! self with
         | None => [Call_alloc_temp type (temps w)]
         | Some _ => []
         end
         ++ flat_map (fun vl => [Call_add (Assign (default (temps w) (ret_regs w !! self)) vl.1);
                                 Call_add (Goto target)])
              ((value, line) :: more)
    /\ count is_alloc_temp
         (emitted (gen_all (returns_of ((value, line) :: more))
                     (TryFinallyNonlocalControl self target)) w)
       = match ret_regs w !! self with None => 1%nat | Some _ => 0%nat end
    /\ count is_return
         (emitted (gen_all (returns_of ((value, line) :: more))
                     (TryFinallyNonlocalControl self target)) w) = 0%nat
    /\ ret_regs (gen_all (returns_of ((value, line) :: more))
                   (TryFinallyNonlocalControl self target) w).2 !! self
       = Some (default (temps w) (ret_regs w !! self)).
Proof.
  intros self target value line more w type Ht.
  assert (Hall :
    outcome (gen_all (returns_of ((value, line) :: more))
               (TryFinallyNonlocalControl self target)) w = Ok tt
    /\ calls (gen_all (returns_of ((value, line) :: more))
                (TryFinallyNonlocalControl self target) w).2
       = calls w
         ++ match ret_regs w !! self with
            | None => [Call_alloc_temp type (temps w)]
            | Some _ => []
            end
         ++ flat_map (fun vl => [Call_add (Assign (default (temps w) (ret_regs w !! self)) vl.1);
                                 Call_add (Goto target)])
              ((value, line) :: more)
    /\ ret_regs (gen_all (returns_of ((value, line) :: more))
                   (TryFinallyNonlocalControl self target) w).2 !! self
       = Some (default (temps w) (ret_regs w !! self))).
  { change (returns_of ((value, line) :: more))
      with ((ReturnValue value, line) :: returns_of more).
    cbn [gen_all flat_map fst snd gen]. unfold outcome.
    destruct (ret_regs w !! self) as [r|] eqn:Hslot.
    - rewrite (bind_ok _ _ w tt _ (try_finally_return_present self target value line w r Hslot)).
      edestruct (try_finally_returns_reuse self target more) as (Ho & Hc & Hr);
        [|split; [exact Ho|]; rewrite Hc, Hr].
      + exact Hslot.
      + simpl. split; [by rewrite <- app_assoc | exact Hslot].
    - rewrite (bind_ok _ _ w tt _
                 (try_finally_return_absent self target value line w type Hslot Ht)).
      edestruct (try_finally_returns_reuse self target more) as (Ho & Hc & Hr);
        [|split; [exact Ho|]; rewrite Hc, Hr].
      + simpl. apply lookup_insert_eq.
      + simpl.
        split; [by rewrite <- app_assoc | apply lookup_insert_eq]. }
  destruct Hall as (Ho & Hc & Hr).
  rewrite (emitted_of_append _ _ _ Hc).
  split; [exact Ho|]. split; [reflexivity|].
  rewrite !count_app, !count_assign_goto by done.
  repeat split; [by destruct (ret_regs w !! self) .. | exact Hr].
Qed.

Lemma try_finally_return_allocates_once_witness :
  last (ret_types world0) = Some (RType_named "object")
  /\ emitted (gen_all (returns_of [(External 1, 4%Z); (External 2, 6%Z)])
                (TryFinallyNonlocalControl 0 9)) world0
     = match ret_regs world0 !! 0%N with
       | None => [Call_alloc_temp (RType_named "object") (temps world0)]
       | Some _ => []
       end
       ++ flat_map (fun vl => [Call_add (Assign (default (temps world0) (ret_regs world0 !! 0%N)) vl.1);
                               Call_add (Goto 9)])
            [(External 1, 4%Z); (External 2, 6%Z)].
Proof.
  split; [reflexivity|].
  apply (try_finally_return_allocates_once 0%N 9%N (External 1) 4%Z
           [(External 2, 6%Z)] world0 (RType_named "object")).
  reflexivity.
Defined.

(** A frame fresh from its constructor has no slot. *)
Lemma try_finally_init_has_no_slot target w :
  ret_regs (TryFinallyNonlocalControl_init target w).2 !! next_frame w = None
  /\ outcome (TryFinallyNonlocalControl_init target) w
     = Ok (TryFinallyNonlocalControl (next_frame w) target).
Proof. split; [apply lookup_delete_eq | reflexivity]. Qed.

(** ** Routing a jump down the chain of frames *)

Lemma gen_routed j self line w :
  gen j self line w
  = (cleanups (cleanups_before j self) line;; gen j (resolver j self) line) w.
Proof.
  revert w.
  induction self as [| outer IH c b | | outer IH kind | self target]; intros w.
  - reflexivity.
  - destruct j; [reflexivity | reflexivity | apply IH].
  - reflexivity.
  - cbn [cleanups_before resolver cleanups].
    rewrite gen_cleanup_frame, bind_assoc_at.
    rewrite (bind_ok _ (fun _ => gen j outer line) w tt _ (gen_cleanup_run kind line w)).
    rewrite (bind_ok _ (fun _ => cleanups (cleanups_before j outer) line;;
                                 gen j (resolver j outer) line)
               w tt _ (gen_cleanup_run kind line w)).
    apply IH.
  - reflexivity.
Qed.

Lemma resolver_resolves j self : resolves j (resolver j self) = true.
Proof.
  induction self as [| outer IH c b | | outer IH kind | self target];
    try reflexivity; try exact IH.
  destruct j; [reflexivity | reflexivity | exact IH].
Qed.

Lemma emitted_routed j self line w :
  emitted (gen j self line) w
  = emitted (cleanups (cleanups_before j self) line) w
    ++ emitted (gen j (resolver j self) line)
         (cleanups (cleanups_before j self) line w).2.
Proof.
  unfold emitted at 1. rewrite gen_routed.
  fold (emitted (cleanups (cleanups_before j self) line;;
                 gen j (resolver j self) line) w).
  apply (emitted_bind_ok _ (fun _ => gen j (resolver j self) line) w tt _
           (cleanups_run _ line w) (appends_cleanups _ line) (appends_gen j _ line)).
Qed.

Lemma outcome_routed j self line w :
  outcome (gen j self line) w
  = outcome (gen j (resolver j self) line)
      (cleanups (cleanups_before j self) line w).2.
Proof.
  unfold outcome at 1. rewrite gen_routed.
  by rewrite (bind_ok _ _ w tt _ (cleanups_run _ line w)).
Qed.

(** Frame induction for a relation between the world before and after a
    jump: it is enough that the relation composes, that every cleanup keeps
    it, and that every frame answering the jump itself keeps it. *)
Lemma gen_lift (R : World -> World -> Prop) j :
  (forall w1 w2 w3, R w1 w2 -> R w2 w3 -> R w1 w3) ->
  (forall kind line w, R w (gen_cleanup kind line w).2) ->
  (forall self line w, resolves j self = true -> R w (gen j self line w).2) ->
  forall self line w, R w (gen j self line w).2.
Proof.
  intros Htrans Hc Hleaf self line.
  induction self as [| outer IH c b | | outer IH kind | self target]; intros w.
  - by apply Hleaf.
  - destruct j; [by apply Hleaf | by apply Hleaf | apply IH].
  - by apply Hleaf.
  - rewrite gen_cleanup_frame.
    rewrite (bind_ok _ (fun _ => gen j outer line) w tt _ (gen_cleanup_run kind line w)).
    eapply Htrans; [apply Hc | apply IH].
  - by apply Hleaf.
Qed.

(** ** What the frames leave alone *)

Lemma gen_cleanup_error_handlers kind line w :
  error_handlers (gen_cleanup kind line w).2 = error_handlers w.
Proof. destruct kind as [saved | [slot|] saved]; run_on w; reflexivity. Qed.

Lemma gen_cleanup_ret_regs kind line w :
  ret_regs (gen_cleanup kind line w).2 = ret_regs w.
Proof. destruct kind as [saved | [slot|] saved]; run_on w; reflexivity. Qed.

(** X3: no jump changes the builder's error-handler stack, whatever frames
    it passes and whether it ends normally or by an exception: the one
    handler pushed (by a generator's return) is popped again. *)
Theorem error_handler_stack_kept :
  forall j self line w,
    error_handlers (gen j self line w).2 = error_handlers w.
Proof.
  intros j. apply (gen_lift (fun w w' => error_handlers w' = error_handlers w)).
  - intros w1 w2 w3 H12 H23. by rewrite H23.
  - apply gen_cleanup_error_handlers.
  - intros self line w Hres.
    destruct self as [| outer c b | | outer kind | self target], j as [| | value];
      try discriminate Hres; run_on w; try reflexivity.
    destruct (rregs !! self); [reflexivity|].
    destruct (last rts); reflexivity.
Qed.

(** X4: break and continue never change the ret_reg of any try/finally
    frame, whatever frames they pass and however they end. *)
Theorem break_continue_keep_ret_regs :
  forall self line w,
    ret_regs (gen_break self line w).2 = ret_regs w
    /\ ret_regs (gen_continue self line w).2 = ret_regs w.
Proof.
  intros self line w. split.
  - apply (gen_lift (fun w w' => ret_regs w' = ret_regs w) Break).
    + intros w1 w2 w3 H12 H23. by rewrite H23.
    + apply gen_cleanup_ret_regs.
    + intros f l w0 Hres.
      destruct f as [| outer c b | | outer kind | f target];
        try discriminate Hres; run_on w0; reflexivity.
  - apply (gen_lift (fun w w' => ret_regs w' = ret_regs w) Continue).
    + intros w1 w2 w3 H12 H23. by rewrite H23.
    + apply gen_cleanup_ret_regs.
    + intros f l w0 Hres.
      destruct f as [| outer c b | | outer kind | f target];
        try discriminate Hres; run_on w0; reflexivity.
Qed.

Lemma try_finally_return_slots self target value line w :
  ret_regs (gen_return (TryFinallyNonlocalControl self target) value line w).2 = ret_regs w
  \/ ret_regs w !! self = None
     /\ ret_regs (gen_return (TryFinallyNonlocalControl self target) value line w).2
        = <[self := temps w]> (ret_regs w).
Proof.
  run_on w. destruct (rregs !! self) eqn:Hslot; [by left|].
  destruct (last rts); [by right | by left].
Qed.

(** X5: a ret_reg, once set, stays: if a try/finally frame object holds a
    register, it holds the same register after any jump lowered on any
    chain of frames. *)
Theorem ret_reg_once_set_stays :
  forall j self line w frame r,
    ret_regs w !! frame = Some r ->
    ret_regs (gen j self line w).2 !! frame = Some r.
Proof.
  intros j self line w frame r. revert self line w.
  apply (gen_lift (fun w w' => ret_regs w !! frame = Some r ->
                               ret_regs w' !! frame = Some r)).
  - auto.
  - intros kind line w. by rewrite gen_cleanup_ret_regs.
  - intros self line w Hres Hset.
    destruct self as [| outer c b | | outer kind | self target], j as [| | value];
      try discriminate Hres;
      try (revert Hset; run_on w; intros Hset; exact Hset).
    destruct (try_finally_return_slots self target value line w) as [Hsame | [Hnone Hins]].
    + cbn [gen]. by rewrite Hsame.
    + cbn [gen]. rewrite Hins. rewrite lookup_insert_ne; [exact Hset|].
      intros ->. congruence.
Qed.

Lemma ret_reg_once_set_stays_witness :
  ret_regs world_with_slot !! 0%N = Some 3%N
  /\ ret_regs (gen (ReturnValue (External 1))
                 (ExceptNonlocalControl (TryFinallyNonlocalControl 0 9) (inl (External 2)))
                 7%Z world_with_slot).2 !! 0%N = Some 3%N.
Proof.
  split; [reflexivity|].
  apply (ret_reg_once_set_stays (ReturnValue (External 1))
           (ExceptNonlocalControl (TryFinallyNonlocalControl 0 9) (inl (External 2)))
           7%Z world_with_slot 0%N 3%N).
  reflexivity.
Defined.

(** ** New blocks *)

Lemma activated_app cs cs' : activated (cs ++ cs') = activated cs ++ activated cs'.
Proof.
  induction cs as [|c cs IH]; [reflexivity|].
  destruct c; simpl; by rewrite ?IH.
Qed.

Lemma activates_new_blocks_trans w1 w2 w3 d1 d2 :
  activates_new_blocks w1 w2 d1 -> activates_new_blocks w2 w3 d2 ->
  activates_new_blocks w1 w3 (d1 ++ d2).
Proof.
  intros (Hle1 & Hnd1 & Hin1) (Hle2 & Hnd2 & Hin2).
  rewrite Forall_forall in Hin1, Hin2.
  split; [lia|]. rewrite activated_app. split.
  - apply NoDup_app. split; [exact Hnd1|]. split; [|exact Hnd2].
    intros b Hb1 Hb2. specialize (Hin1 b Hb1). specialize (Hin2 b Hb2). lia.
  - apply Forall_app. split; apply Forall_forall; intros b Hb.
    + specialize (Hin1 b Hb). lia.
    + specialize (Hin2 b Hb). lia.
Qed.

Lemma activates_none w d :
  activated d = [] -> activates_new_blocks w w d.
Proof.
  intros H. unfold activates_new_blocks. rewrite H.
  split; [lia|]. split; [constructor | constructor].
Qed.

Lemma gen_cleanup_blocks kind line w :
  activates_new_blocks w (gen_cleanup kind line w).2 (emitted (gen_cleanup kind line) w).
Proof.
  destruct kind as [saved | [slot|] saved].
  - rewrite except_cleanup_calls.
    replace (gen_cleanup (ExceptCleanup saved) line w).2
      with (mkWorld (calls (gen_cleanup (ExceptCleanup saved) line w).2)
              (error_handlers w) (block_handler w) (ret_types w) (next_label_target w)
              (temps w) (next_block w) (next_frame w) (ret_regs w))
      by (run_on w; reflexivity).
    unfold activates_new_blocks. cbn [activated next_block].
    split; [lia|]. split; constructor.
  - rewrite finally_cleanup_with_slot.
    assert (Hnb : next_block (gen_cleanup (FinallyCleanup (Some slot) saved) line w).2
                  = N.succ (N.succ (N.succ (next_block w))))
      by (run_on w; reflexivity).
    unfold activates_new_blocks. rewrite Hnb. cbn [activated].
    split; [lia|]. split.
    + repeat (apply NoDup_cons; split; [rewrite ?elem_of_cons, elem_of_nil; lia|]).
      constructor.
    + repeat (apply Forall_cons; split; [lia|]). constructor.
  - rewrite finally_cleanup_without_slot.
    assert (Hnb : next_block (gen_cleanup (FinallyCleanup None saved) line w).2
                  = N.succ (N.succ (next_block w)))
      by (run_on w; reflexivity).
    unfold activates_new_blocks. rewrite Hnb. cbn [activated].
    split; [lia|]. split.
    + repeat (apply NoDup_cons; split; [rewrite ?elem_of_cons, elem_of_nil; lia|]).
      constructor.
    + repeat (apply Forall_cons; split; [lia|]). constructor.
Qed.

Ltac new_blocks_here :=
  eexists; split;
    [ first [ symmetry; apply app_nil_r | rewrite <- ?app_assoc; reflexivity ]
    | unfold activates_new_blocks; cbn [activated next_block];
      split; [lia|]; split;
        [ repeat (apply NoDup_cons; split; [rewrite ?elem_of_cons, elem_of_nil; lia|]);
          constructor
        | repeat (apply Forall_cons; split; [lia|]); constructor ] ].

Lemma gen_blocks j self line w :
  exists d, calls (gen j self line w).2 = calls w ++ d
            /\ activates_new_blocks w (gen j self line w).2 d.
Proof.
  revert self line w.
  apply (gen_lift (fun w w' => exists d, calls w' = calls w ++ d
                                         /\ activates_new_blocks w w' d)).
  - intros w1 w2 w3 (d1 & Hc1 & Hb1) (d2 & Hc2 & Hb2). exists (d1 ++ d2). split.
    + by rewrite Hc2, Hc1, app_assoc.
    + by apply (activates_new_blocks_trans w1 w2 w3).
  - intros kind line w. exists (emitted (gen_cleanup kind line) w). split.
    + apply calls_emitted, appends_gen_cleanup.
    + apply gen_cleanup_blocks.
  - intros self line w Hres.
    destruct self as [| outer c b | | outer kind | self target], j as [| | value];
      try discriminate Hres; run_on w; try new_blocks_here.
    destruct (rregs !! self); [new_blocks_here|].
    destruct (last rts); new_blocks_here.
Qed.

(** X6: every block a jump activates was made during that very jump (its
    index lies between the block counter before and after), and no block is
    activated twice, whatever frames the jump passes and however it ends. *)
Theorem jumps_activate_only_new_blocks :
  forall j self line w,
    (next_block w <= next_block (gen j self line w).2)%N
    /\ NoDup (activated (emitted (gen j self line) w))
    /\ Forall (fun b => (next_block w <= b < next_block (gen j self line w).2)%N)
         (activated (emitted (gen j self line) w)).
Proof.
  intros j self line w. destruct (gen_blocks j self line w) as (d & Hc & Hb).
  by rewrite (emitted_of_append _ _ _ Hc).
Qed.

(** ** Where a jump ends *)

Lemma gen_cleanup_quiet kind line w :
  count is_return (emitted (gen_cleanup kind line) w) = 0%nat
  /\ count is_error_report (emitted (gen_cleanup kind line) w) = 0%nat.
Proof.
  destruct kind as [saved | [slot|] saved].
  - by rewrite except_cleanup_calls.
  - by rewrite finally_cleanup_with_slot.
  - by rewrite finally_cleanup_without_slot.
Qed.

Lemma cleanups_quiet kinds line w :
  count is_return (emitted (cleanups kinds line) w) = 0%nat
  /\ count is_error_report (emitted (cleanups kinds line) w) = 0%nat.
Proof.
  revert w. induction kinds as [|k ks IH]; intros w.
  - by replace (emitted (cleanups [] line) w) with (@nil Call)
      by (symmetry; apply emitted_of_append; run_on w; by rewrite app_nil_r).
  - cbn [cleanups].
    rewrite (emitted_bind_ok _ (fun _ => cleanups ks line) w tt _
               (gen_cleanup_run k line w)
               (appends_gen_cleanup k line) (appends_cleanups ks line)).
    rewrite !count_app.
    destruct (gen_cleanup_quiet k line w) as [-> ->].
    destruct (IH (gen_cleanup k line w).2) as [-> ->]. done.
Qed.

Ltac run_emitted_or_none :=
  lazymatch goal with
  | |- emitted _ ?w = _ =>
      apply emitted_of_append; run_on w;
      first [ symmetry; apply app_nil_r | rewrite <- ?app_assoc; reflexivity ]
  end.

Lemma break_answered self line w :
  resolves Break self = true ->
  outcome (gen Break self line) w
  = match self with
    | BaseNonlocalControl | GeneratorNonlocalControl =>
        Raise (AssertionError "break outside of loop")
    | _ => Ok tt
    end
  /\ emitted (gen Break self line) w = break_answer self line.
Proof.
  intros Hres.
  destruct self as [| outer c b | | outer kind | self target];
    try discriminate Hres; (split; [reflexivity | run_emitted_or_none]).
Qed.

Lemma continue_answered self line w :
  resolves Continue self = true ->
  outcome (gen Continue self line) w
  = match self with
    | BaseNonlocalControl | GeneratorNonlocalControl =>
        Raise (AssertionError "continue outside of loop")
    | _ => Ok tt
    end
  /\ emitted (gen Continue self line) w = continue_answer self line.
Proof.
  intros Hres.
  destruct self as [| outer c b | | outer kind | self target];
    try discriminate Hres; (split; [reflexivity | run_emitted_or_none]).
Qed.

(** X1: a break is answered by the first frame down the chain that is not a
    cleanup frame, after the cleanups of the frames passed on the way, each
    restoring once and in that order.  A loop frame answers with one jump to
    its break block; a try/finally frame with one error report and no jump;
    at the base frame or a generator's base frame the break raises
    AssertionError, the cleanups passed having been emitted already.  An
    error is reported only in the try/finally case.  The same holds for
    continue, with the loop's continue block. *)
Theorem break_continue_answered_by_nearest_frame :
  forall self line w,
    (outcome (gen_break self line) w
     = match resolver Break self with
       | BaseNonlocalControl | GeneratorNonlocalControl =>
           Raise (AssertionError "break outside of loop")
       | _ => Ok tt
       end
     /\ emitted (gen_break self line) w
        = emitted (cleanups (cleanups_before Break self) line) w
          ++ break_answer (resolver Break self) line
     /\ restored (emitted (gen_break self line) w)
        = map restore_args (cleanups_before Break self)
     /\ count is_error_report (emitted (gen_break self line) w)
        = match resolver Break self with
          | TryFinallyNonlocalControl _ _ => 1%nat
          | _ => 0%nat
          end)
    /\ (outcome (gen_continue self line) w
        = match resolver Continue self with
          | BaseNonlocalControl | GeneratorNonlocalControl =>
              Raise (AssertionError "continue outside of loop")
          | _ => Ok tt
          end
        /\ emitted (gen_continue self line) w
           = emitted (cleanups (cleanups_before Continue self) line) w
             ++ continue_answer (resolver Continue self) line
        /\ restored (emitted (gen_continue self line) w)
           = map restore_args (cleanups_before Continue self)
        /\ count is_error_report (emitted (gen_continue self line) w)
           = match resolver Continue self with
             | TryFinallyNonlocalControl _ _ => 1%nat
             | _ => 0%nat
             end).
Proof.
  intros self line w. split.
  - change (gen_break self line) with (gen Break self line).
    rewrite outcome_routed, emitted_routed.
    destruct (break_answered (resolver Break self) line
                (cleanups (cleanups_before Break self) line w).2
                (resolver_resolves Break self)) as [-> ->].
    rewrite restored_app, count_app, cleanups_restored.
    destruct (cleanups_quiet (cleanups_before Break self) line w) as [_ ->].
    split; [reflexivity|]. split; [reflexivity|].
    destruct (resolver Break self); simpl; by rewrite ?app_nil_r.
  - change (gen_continue self line) with (gen Continue self line).
    rewrite outcome_routed, emitted_routed.
    destruct (continue_answered (resolver Continue self) line
                (cleanups (cleanups_before Continue self) line w).2
                (resolver_resolves Continue self)) as [-> ->].
    rewrite restored_app, count_app, cleanups_restored.
    destruct (cleanups_quiet (cleanups_before Continue self) line w) as [_ ->].
    split; [reflexivity|]. split; [reflexivity|].
    destruct (resolver Continue self); simpl; by rewrite ?app_nil_r.
Qed.

Lemma try_finally_return_quiet self target value line w :
  restored (emitted (gen_return (TryFinallyNonlocalControl self target) value line) w) = []
  /\ count is_return
       (emitted (gen_return (TryFinallyNonlocalControl self target) value line) w) = 0%nat
  /\ count is_error_report
       (emitted (gen_return (TryFinallyNonlocalControl self target) value line) w) = 0%nat.
Proof.
  assert (H : exists d,
             calls (gen_return (TryFinallyNonlocalControl self target) value line w).2
             = calls w ++ d
             /\ restored d = [] /\ count is_return d = 0%nat
             /\ count is_error_report d = 0%nat).
  { run_on w. destruct (rregs !! self).
    - eexists. split; [rewrite <- ?app_assoc; reflexivity | done].
    - destruct (last rts).
      + eexists. split; [rewrite <- ?app_assoc; reflexivity | done].
      + exists []. split; [by rewrite app_nil_r | done]. }
  destruct H as (d & Hc & H). by rewrite (emitted_of_append _ _ _ Hc).
Qed.

Lemma generator_return_emitted value line w :
  emitted (gen_return GeneratorNonlocalControl value line) w
  = [Call_add (LoadInt (-1));
     Call_assign (next_label_target w) (LoadInt (-1)) line;
     Call_push_error_handler None;
     Call_goto_and_activate (next_block w);
     Call_primitive_op set_stop_iteration_value [value] NO_TRACEBACK_LINE_NO;
     Call_add Unreachable;
     Call_pop_error_handler].
Proof.
  apply emitted_of_append. by rewrite generator_return_run.
Qed.

Lemma return_answered self value line w :
  resolves (ReturnValue value) self = true ->
  restored (emitted (gen (ReturnValue value) self line) w) = []
  /\ count is_return (emitted (gen (ReturnValue value) self line) w)
     = match self with BaseNonlocalControl => 1%nat | _ => 0%nat end
  /\ count is_error_report (emitted (gen (ReturnValue value) self line) w) = 0%nat.
Proof.
  intros Hres.
  destruct self as [| outer c b | | outer kind | self target];
    try discriminate Hres; cbn [gen].
  - by replace (emitted (gen_return BaseNonlocalControl value line) w)
      with [Call_add (Return value)] by (symmetry; run_emitted).
  - by rewrite generator_return_emitted.
  - apply try_finally_return_quiet.
Qed.

(** X2: a return passes loop frames and cleanup frames alike and is
    answered by the frame at the end of the chain (base, generator base or
    try/finally), after the cleanups of all cleanup frames on the way, each
    restoring once and in that order, loops in between making no
    difference.  A function Return is added only when the chain ends at the
    base frame, and then exactly one, as the last call of a return that ends
    normally; no return ever reports an error through the builder. *)
Theorem return_answered_by_last_frame :
  forall self value line w,
    outcome (gen_return self value line) w
    = outcome (gen_return (resolver (ReturnValue value) self) value line)
        (cleanups (cleanups_before (ReturnValue value) self) line w).2
    /\ emitted (gen_return self value line) w
       = emitted (cleanups (cleanups_before (ReturnValue value) self) line) w
         ++ emitted (gen_return (resolver (ReturnValue value) self) value line)
              (cleanups (cleanups_before (ReturnValue value) self) line w).2
    /\ restored (emitted (gen_return self value line) w)
       = map restore_args (cleanups_before (ReturnValue value) self)
    /\ count is_return (emitted (gen_return self value line) w)
       = match resolver (ReturnValue value) self with
         | BaseNonlocalControl => 1%nat
         | _ => 0%nat
         end
    /\ count is_error_report (emitted (gen_return self value line) w) = 0%nat
    /\ match resolver (ReturnValue value) self with
       | BaseNonlocalControl =>
           outcome (gen_return self value line) w = Ok tt
           /\ last (emitted (gen_return self value line) w)
              = Some (Call_add (Return value))
       | _ => True
       end.
Proof.
  intros self value line w.
  change (gen_return self value line) with (gen (ReturnValue value) self line).
  split; [apply outcome_routed|]. split; [apply emitted_routed|].
  rewrite outcome_routed, emitted_routed.
  destruct (return_answered (resolver (ReturnValue value) self) value line
              (cleanups (cleanups_before (ReturnValue value) self) line w).2
              (resolver_resolves (ReturnValue value) self)) as (Hr & Hret & Herr).
  rewrite restored_app, !count_app, cleanups_restored, Hr, Hret, Herr.
  destruct (cleanups_quiet (cleanups_before (ReturnValue value) self) line w) as [-> ->].
  split; [by rewrite app_nil_r|]. split; [reflexivity|]. split; [reflexivity|].
  destruct (resolver (ReturnValue value) self); try exact I.
  split; [reflexivity|].
  replace (emitted (gen (ReturnValue value) BaseNonlocalControl line) _)
    with [Call_add (Return value)] by (symmetry; run_emitted).
  apply last_snoc.
Qed.

(** ** Try/finally frames: the return type and the constructor *)

(** X7: when the builder has no return type at hand (ret_types is empty),
    a return on a try/finally frame without a slot raises IndexError before
    any call on the builder and leaves the frame without a slot; on a frame
    that already holds a slot the return type is not looked at, and the
    return assigns to the slot and jumps to the target as usual. *)
Theorem try_finally_return_without_ret_type :
  forall self target value line w,
    ret_types w = [] ->
    match ret_regs w !! self with
    | None =>
        gen_return (TryFinallyNonlocalControl self target) value line w
        = (Raise (IndexError "list index out of range"), w)
    | Some r =>
        outcome (gen_return (TryFinallyNonlocalControl self target) value line) w = Ok tt
        /\ emitted (gen_return (TryFinallyNonlocalControl self target) value line) w
           = [Call_add (Assign r value); Call_add (Goto target)]
    end.
Proof.
  intros self target value line w Hts.
  destruct (ret_regs w !! self) as [r|] eqn:Hslot.
  - unfold outcome, emitted.
    rewrite (try_finally_return_present self target value line w r Hslot).
    split; [reflexivity | apply drop_app_length].
  - revert Hts Hslot. run_on w. intros -> ->. reflexivity.
Qed.

Lemma try_finally_return_without_ret_type_witness :
  ret_types world_without_ret_type = []
  /\ gen_return (TryFinallyNonlocalControl 0 9) (External 1) 4%Z world_without_ret_type
     = (Raise (IndexError "list index out of range"), world_without_ret_type).
Proof.
  split; [reflexivity|].
  exact (try_finally_return_without_ret_type 0%N 9%N (External 1) 4%Z
           world_without_ret_type eq_refl).
Defined.

(** X8: a try/finally frame fresh from its constructor has no slot: the
    first return lowered on it allocates one temporary of the current
    return type, and this return and all later ones on the frame assign to
    that temporary and jump to the frame's target.  The constructor itself
    makes no call on the builder. *)
Theorem fresh_try_finally_frame_allocates_once :
  forall target value line (more : list (Value * Z)) w type,
    last (ret_types w) = Some type ->
    outcome (frame ← TryFinallyNonlocalControl_init target;
             gen_all (returns_of ((value, line) :: more)) frame) w = Ok tt
    /\ emitted (frame ← TryFinallyNonlocalControl_init target;
                gen_all (returns_of ((value, line) :: more)) frame) w
       = Call_alloc_temp type (temps w)
         :: flat_map (fun vl => [Call_add (Assign (temps w) vl.1); Call_add (Goto target)])
              ((value, line) :: more).
Proof.
  intros target value line more w type Ht.
  destruct w as [cs ehs bhs rts nlt tmps nblk nfrm rregs]. simpl in Ht.
  set (w0 := mkWorld cs ehs bhs rts nlt tmps nblk (N.succ nfrm) (delete nfrm rregs)).
  set (w1 := mkWorld (cs ++ [Call_alloc_temp type tmps; Call_add (Assign tmps value);
                             Call_add (Goto target)])
               ehs bhs rts nlt (N.succ tmps) nblk (N.succ nfrm)
               (<[nfrm := tmps]> (delete nfrm rregs))).
  assert (H1 : gen_return (TryFinallyNonlocalControl nfrm target) value line w0
               = (Ok tt, w1))
    by (apply (try_finally_return_absent nfrm target value line w0 type);
        [apply lookup_delete_eq | exact Ht]).
  assert (Hrun :
    (frame ← TryFinallyNonlocalControl_init target;
     gen_all (returns_of ((value, line) :: more)) frame)
      (mkWorld cs ehs bhs rts nlt tmps nblk nfrm rregs)
    = gen_all (returns_of more) (TryFinallyNonlocalControl nfrm target) w1).
  { rewrite (bind_ok (TryFinallyNonlocalControl_init target)
               (fun frame => gen_all (returns_of ((value, line) :: more)) frame)
               (mkWorld cs ehs bhs rts nlt tmps nblk nfrm rregs)
               (TryFinallyNonlocalControl nfrm target) w0 eq_refl).
    change (returns_of ((value, line) :: more))
      with ((ReturnValue value, line) :: returns_of more).
    cbn [gen_all gen].
    by rewrite (bind_ok _ (fun _ => gen_all (returns_of more)
                                      (TryFinallyNonlocalControl nfrm target))
                  w0 tt w1 H1). }
  destruct (try_finally_returns_reuse nfrm target more w1 tmps) as (Ho & Hc & _);
    [apply lookup_insert_eq|].
  split.
  - unfold outcome. rewrite Hrun. exact Ho.
  - apply emitted_of_append. rewrite Hrun, Hc. subst w1. simpl.
    by rewrite <- app_assoc.
Qed.

Lemma fresh_try_finally_frame_allocates_once_witness :
  last (ret_types world0) = Some (RType_named "object")
  /\ outcome (frame ← TryFinallyNonlocalControl_init 9%N;
              gen_all (returns_of [(External 1, 4%Z); (External 2, 6%Z)]) frame) world0
     = Ok tt.
Proof.
  split; [reflexivity|].
  apply (fresh_try_finally_frame_allocates_once 9%N (External 1) 4%Z
           [(External 2, 6%Z)] world0 (RType_named "object")).
  reflexivity.
Defined.

(** ** A generator's return under enclosing frames *)

(** X9: when the chain of frames ends at a generator's base frame, a return
    ends normally whatever loops and cleanup frames it passes; after their
    cleanups it makes the seven calls of the exhaustion protocol, and the
    block in which StopIteration is set has no error handler, whatever
    handlers were active around the return. *)
Theorem generator_return_under_frames :
  forall self value line w,
    resolver (ReturnValue value) self = GeneratorNonlocalControl ->
    outcome (gen_return self value line) w = Ok tt
    /\ emitted (gen_return self value line) w
       = emitted (cleanups (cleanups_before (ReturnValue value) self) line) w
         ++ [Call_add (LoadInt (-1));
             Call_assign
               (next_label_target
                  (cleanups (cleanups_before (ReturnValue value) self) line w).2)
               (LoadInt (-1)) line;
             Call_push_error_handler None;
             Call_goto_and_activate
               (next_block (cleanups (cleanups_before (ReturnValue value) self) line w).2);
             Call_primitive_op set_stop_iteration_value [value] NO_TRACEBACK_LINE_NO;
             Call_add Unreachable;
             Call_pop_error_handler]
    /\ block_handler (gen_return self value line w).2
         !! next_block (cleanups (cleanups_before (ReturnValue value) self) line w).2
       = Some None.
Proof.
  intros self value line w Hend.
  change (gen_return self value line) with (gen (ReturnValue value) self line).
  rewrite outcome_routed, emitted_routed, gen_routed, Hend.
  rewrite (bind_ok _ _ w tt _ (cleanups_run _ line w)).
  cbn [gen]. rewrite generator_return_emitted.
  unfold outcome. rewrite generator_return_run.
  split; [reflexivity|]. split; [reflexivity|]. apply lookup_insert_eq.
Qed.

Lemma generator_return_under_frames_witness :
  resolver (ReturnValue (External 2))
    (ExceptNonlocalControl (LoopNonlocalControl GeneratorNonlocalControl 1 2)
       (inl (External 1)))
  = GeneratorNonlocalControl
  /\ outcome (gen_return
                (ExceptNonlocalControl (LoopNonlocalControl GeneratorNonlocalControl 1 2)
                   (inl (External 1)))
                (External 2) 8%Z) world_without_ret_type = Ok tt.
Proof.
  split; [reflexivity|].
  apply (generator_return_under_frames
           (ExceptNonlocalControl (LoopNonlocalControl GeneratorNonlocalControl 1 2)
              (inl (External 1)))
           (External 2) 8%Z world_without_ret_type).
  reflexivity.
Defined.
